(** * Concreteness classification of DuoTang's word lists

    Shallow embedding of [filter_words.py] (the heuristic lexical
    classifier and the kept/removed partition of [main]) and of
    [generate_nouns.py] ([is_concrete_noun] and [is_valid_word]) over an
    abstract WordNet oracle.  Strings are ASCII strings; Python's
    [str.lower], [str.isalpha], [str.isupper], [str.endswith] and the
    substring test [in] are written out on them. *)

From Stdlib Require Import String Ascii List Bool Arith NArith Lia Permutation Sorted.
Import ListNotations.
Open Scope string_scope.
Open Scope list_scope.

(** ** Python string primitives on ASCII *)

Module Py.

(** [c.lower()] on one character: A..Z are mapped to a..z. *)
Definition lower_char (c : ascii) : ascii :=
  let n := nat_of_ascii c in
  if ((65 <=? n) && (n <=? 90))%nat then ascii_of_nat (n + 32)%nat else c.

(** [s.lower()] *)
Fixpoint lower (s : string) : string :=
  match s with
  | EmptyString => EmptyString
  | String c s' => String (lower_char c) (lower s')
  end.

Definition is_upper_char (c : ascii) : bool :=
  let n := nat_of_ascii c in ((65 <=? n) && (n <=? 90))%nat.

Definition is_lower_char (c : ascii) : bool :=
  let n := nat_of_ascii c in ((97 <=? n) && (n <=? 122))%nat.

Definition is_alpha_char (c : ascii) : bool :=
  is_upper_char c || is_lower_char c.

Fixpoint all_alpha (s : string) : bool :=
  match s with
  | EmptyString => true
  | String c s' => is_alpha_char c && all_alpha s'
  end.

(** [s.isalpha()]: false on the empty string. *)
Definition isalpha (s : string) : bool :=
  match s with
  | EmptyString => false
  | _ => all_alpha s
  end.

(** [s.startswith(p)] *)
Fixpoint startswith (p s : string) : bool :=
  match p, s with
  | EmptyString, _ => true
  | String c p', String d s' => Ascii.eqb c d && startswith p' s'
  | String _ _, EmptyString => false
  end.

(** [s.endswith(suf)]: some tail of [s] equals [suf]. *)
Fixpoint endswith (s suf : string) : bool :=
  (s =? suf) ||
  match s with
  | EmptyString => false
  | String _ s' => endswith s' suf
  end.

(** [sub in s] for strings *)
Fixpoint contains (sub s : string) : bool :=
  startswith sub s ||
  match s with
  | EmptyString => false
  | String _ s' => contains sub s'
  end.

(** [x in coll] for a set or list of strings *)
Definition mem (x : string) (coll : list string) : bool :=
  existsb (String.eqb x) coll.

(** [bool(set(a) & set(b))] *)
Definition intersects (a b : list string) : bool :=
  existsb (fun x => mem x b) a.

End Py.

Import Py.

(** ** [filter_words.py]: curated sets *)

Definition PROFANITY : list string :=
  [ "ass"; "arse"; "asshole"; "bastard"; "bitch"; "bollocks"; "crap"; "cunt";
    "damn"; "dick"; "fuck"; "fucking"; "piss"; "shit"; "slut"; "whore";
    "fisting"; "floozie"; "cock"; "coitus" ].

Definition ABSTRACT_SUFFIXES : list string :=
  [ "tion"; "sion"; "ment"; "ness"; "ity"; "ty"; "ance"; "ence"; "ship";
    "hood"; "dom"; "ism"; "ization"; "isation"; "age"; "ery"; "ry"; "cy" ].

Definition ABSTRACT_WORDS : list string :=
  [ "ability"; "abnormality"; "abolishment"; "abortion"; "abrogation";
    "absence"; "abuse"; "acceptance"; "accomplishment"; "accord";
    "accordance"; "accountability"; "accuracy"; "accusation"; "achievement";
    "acknowledgment"; "activation"; "activity"; "adaptation"; "addiction";
    "adjustment"; "administration"; "admission"; "adoption"; "advance";
    "advancement"; "advantage"; "advent"; "advertising"; "advice";
    "advocacy"; "affair"; "affect"; "affinity"; "aftermath"; "agency";
    "aggression"; "agony"; "agreement"; "aid"; "aim"; "alarm"; "alert";
    "allegation"; "allocation"; "allowance"; "amazement"; "ambiguity";
    "ambition"; "amendment"; "amnesty"; "amusement"; "analgesia"; "anarchy";
    "anger"; "angina"; "anguish"; "animation"; "announcement"; "answer";
    "anticipation"; "anxiety"; "apology"; "appeal"; "appearance";
    "appellation"; "appetite"; "applause"; "application"; "appointment";
    "appreciation"; "apprehension"; "approach"; "appropriation"; "approval";
    "argument"; "arithmetic"; "arrangement"; "array"; "arrest"; "arrival";
    "arrogance"; "art"; "ascend"; "ascent"; "aside"; "aspect"; "aspiration";
    "assassination"; "assault"; "assembly"; "assertion"; "assessment";
    "assignment"; "assistance"; "association"; "assumption"; "assurance";
    "asymmetry"; "attempt"; "attendance"; "attention"; "attenuation";
    "attitude"; "attraction"; "attribute"; "authentication"; "authenticity";
    "authorisation"; "authority"; "authorization"; "autoimmunity";
    "automation"; "availability"; "avalanche"; "average"; "aversion";
    "award"; "awareness"; "awe"; "backburn"; "backdrop"; "background";
    "backup"; "bafflement"; "bail"; "balance"; "ban"; "bandwidth"; "banking";
    "bankruptcy"; "bargain"; "barrage"; "barrier"; "baseline"; "basics";
    "basis"; "batting"; "battle"; "beat"; "beating"; "beauty"; "beginning";
    "behalf"; "behavior"; "behaviour"; "beheading"; "behest"; "behold";
    "being"; "belief"; "belligerency"; "benefit"; "best-seller";
    "bestseller"; "bet"; "betray"; "betrayal"; "betting"; "beverage";
    "beyond"; "bias"; "bibliography"; "bid"; "bidding"; "billing"; "billion";
    "biography"; "biology"; "biopsy"; "birth"; "birthday"; "bit"; "bite";
    "bitter"; "bitterness"; "blackness"; "blame"; "blank"; "blast";
    "bleeding"; "blend"; "blessing"; "blight"; "blindness"; "bliss"; "blow";
    "blue"; "blunder"; "blur"; "blush"; "boast"; "boasting"; "body"; "boil";
    "bombing"; "bond"; "bonding"; "bonus"; "booking"; "boolean"; "boom";
    "boon"; "boost"; "border"; "bore"; "boredom"; "borrowing"; "bother";
    "bottom"; "bottom-line"; "bout"; "boundary"; "bout"; "boycott";
    "boyhood"; "bracket"; "brag"; "bragging"; "brain"; "brand"; "bravery";
    "breach"; "break"; "breakdown"; "breakfast"; "breakpoint";
    "breakthrough"; "breath"; "breathing"; "breed"; "breeding"; "breeze";
    "bribery"; "brief"; "briefing"; "briefly"; "brightness"; "brilliance";
    "brilliant"; "brink"; "broadcast"; "brotherhood"; "browsing"; "brunch";
    "brushing"; "brutality"; "bubble"; "budget"; "build"; "building"; "bulk";
    "bulletin"; "bullying"; "bump"; "bunch"; "bundle"; "burden"; "burial";
    "burn"; "burn-out"; "burning"; "burst"; "business"; "bust"; "bustle";
    "buy"; "buyer"; "buying"; "buzz"; "adulthood"; "afternoon"; "afterlife";
    "aftershock"; "afterthought"; "age"; "boyhood"; "century"; "childhood";
    "dawn"; "day"; "daylight"; "deadline"; "decade"; "delay"; "duration";
    "dusk"; "era"; "eternity"; "eve"; "evening"; "event"; "forever";
    "fortnight"; "future"; "girlhood"; "hour"; "interval"; "lifespan";
    "lifetime"; "manhood"; "midnight"; "millennium"; "minute"; "moment";
    "month"; "morning"; "night"; "nightfall"; "nighttime"; "noon"; "past";
    "period"; "present"; "season"; "second"; "semester"; "shift"; "spell";
    "springtime"; "summertime"; "sunrise"; "sunset"; "teatime"; "term";
    "time"; "timeframe"; "timeline"; "tomorrow"; "tonight"; "twilight";
    "week"; "weekend"; "while"; "wintertime"; "year"; "yesterday"; "youth";
    "act"; "action"; "activation"; "activity"; "adaptation"; "addition";
    "adjustment"; "adoption"; "advance"; "advancement"; "advertising";
    "advocacy"; "allocation"; "alteration"; "amendment"; "analysis";
    "animation"; "announcement"; "application"; "approach"; "appropriation";
    "arrangement"; "arrest"; "arrival"; "ascent"; "assassination"; "assault";
    "assembly"; "assessment"; "assignment"; "assist"; "assistance";
    "association"; "attack"; "attainment"; "attempt"; "attendance";
    "attenuation"; "authentication"; "authorization"; "automation"; "backup";
    "banking"; "bargain"; "barrage"; "battle"; "beat"; "beating";
    "beginning"; "behavior"; "behaviour"; "beheading"; "betrayal"; "betting";
    "bid"; "bidding"; "billing"; "birth"; "bite"; "blackmail"; "blast";
    "bleeding"; "blend"; "blessing"; "blight"; "blink"; "blow"; "boast";
    "boasting"; "boil"; "bombing"; "bonding"; "booking"; "boom"; "boost";
    "bore"; "borrowing"; "bounce"; "bout"; "boycott"; "bragging"; "branding";
    "breach"; "break"; "breakdown"; "breakthrough"; "breath"; "breathing";
    "breed"; "breeding"; "bribery"; "broadcast"; "browsing"; "brushing";
    "build"; "building"; "bullying"; "bump"; "burn"; "burning"; "burst";
    "business"; "buy"; "buying"; "buzz"; "academics"; "accompanist";
    "accountant"; "achiever"; "activist"; "actor"; "actress"; "admin";
    "administrator"; "adult"; "adviser"; "advocate"; "agent"; "aide";
    "airman"; "alien"; "allergist"; "ally"; "ambassador"; "analyst";
    "anarchist"; "ancestor"; "angel"; "anesthesiologist"; "announcer";
    "antagonist"; "anthropologist"; "anybody"; "anyone"; "applicant";
    "archaeologist"; "archer"; "architect"; "aristocrat"; "artist";
    "assistant"; "associate"; "astronaut"; "astronomer"; "atheist";
    "athlete"; "attendant"; "attorney"; "audience"; "aunt"; "author"; "baby";
    "babe"; "bachelor"; "badger"; "baker"; "ballerina"; "balloonist";
    "bandleader"; "bandit"; "banker"; "barber"; "bard"; "baritone";
    "bartender"; "bather"; "batman"; "beggar"; "beginner"; "believer";
    "beneficiary"; "bidder"; "billionaire"; "biographer"; "biologist";
    "blacksmith"; "blogger"; "bloke"; "boarder"; "boatman"; "bodyguard";
    "bondsman"; "bookkeeper"; "boss"; "bouncer"; "boy"; "boyfriend"; "bride";
    "bridesmaid"; "brigadier"; "broadcaster"; "broker"; "brother";
    "brother-in-law"; "buddy"; "builder"; "burglar"; "businessman";
    "businesswoman"; "butcher"; "butler"; "buyer"; "bystander";
    "brotherhood"; "citizenship"; "comradeship"; "companionship";
    "courtship"; "fellowship"; "fatherhood"; "friendship"; "kinship";
    "leadership"; "membership"; "motherhood"; "ownership"; "parenthood";
    "partnership"; "relationship"; "sisterhood"; "sportsmanship";
    "stewardship"; "apprenticeship"; "dictatorship"; "guardianship";
    "hardship"; "internship"; "kingship"; "kinship"; "lordship";
    "partnership"; "readership"; "scholarship"; "sponsorship"; "trusteeship";
    "workmanship" ].

Definition ABSTRACT_KEYWORDS : list string :=
  [ "abundance"; "amount"; "capacity"; "degree"; "depth"; "dimension";
    "distance"; "extent"; "height"; "length"; "level"; "magnitude";
    "measure"; "portion"; "quantity"; "ratio"; "scale"; "scope"; "size";
    "total"; "volume"; "weight"; "width"; "condition"; "situation"; "state";
    "status"; "circumstance"; "position"; "concept"; "idea"; "notion";
    "theory"; "thought"; "principle"; "hypothesis"; "philosophy"; "ideology";
    "quality"; "characteristic"; "feature"; "trait"; "attribute"; "property";
    "process"; "procedure"; "method"; "system"; "technique"; "approach";
    "strategy"; "law"; "legislation"; "regulation"; "rule"; "policy";
    "protocol"; "statute"; "analysis"; "research"; "study"; "investigation";
    "examination"; "evaluation"; "assessment" ].

Definition SUFFIX_EXCEPTIONS : list string :=
  [ "station"; "nation"; "ration"; "portion"; "motion"; "lotion"; "potion";
    "cushion"; "fashion"; "mansion"; "passion"; "session"; "mission";
    "television"; "prison"; "poison"; "bison"; "melon"; "lemon"; "demon";
    "summon"; "common"; "salmon"; "cotton"; "button"; "mutton"; "mitten";
    "kitten"; "garden"; "warden"; "burden"; "golden"; "wooden"; "sudden" ].

(** ** [filter_words.py]: the heuristic lexical classifier *)

(** The [for suffix in ABSTRACT_SUFFIXES] loop of [is_abstract_noun]:
    a whitelisted word [continue]s to the next suffix, any other word
    ending in the suffix returns [True]. *)
Fixpoint suffix_loop (word_lower : string) (suffixes : list string) : bool :=
  match suffixes with
  | [] => false
  | suffix :: rest =>
      if endswith word_lower suffix then
        if mem word_lower SUFFIX_EXCEPTIONS then suffix_loop word_lower rest
        else true
      else suffix_loop word_lower rest
  end.

Definition is_abstract_noun (word : string) : bool :=
  let word_lower := lower word in
  if mem word_lower ABSTRACT_WORDS then true
  else if mem word_lower ABSTRACT_KEYWORDS then true
  else if Nat.ltb 7 (String.length word) then suffix_loop word_lower ABSTRACT_SUFFIXES
  else false.

Definition is_profane (word : string) : bool :=
  mem (lower word) PROFANITY.

Definition should_filter (word : string) : bool :=
  if is_profane word then true
  else if is_abstract_noun word then true
  else false.

(** The loop of [main]: each word is appended to [removed_words] when
    [should_filter] holds, to [filtered_words] otherwise.  The pair is
    (filtered_words, removed_words). *)
Fixpoint partition_loop (filtered_words removed_words : list string)
    (words : list string) : list string * list string :=
  match words with
  | [] => (filtered_words, removed_words)
  | word :: rest =>
      if should_filter word
      then partition_loop filtered_words (removed_words ++ [word]) rest
      else partition_loop (filtered_words ++ [word]) removed_words rest
  end.

Definition main_partition (words : list string) : list string * list string :=
  partition_loop [] [] words.

(** [interleave l1 l2 l]: [l] is a merge of [l1] and [l2], each position
    of [l] taken from exactly one of them, in order. *)
Inductive interleave {A : Type} : list A -> list A -> list A -> Prop :=
  | il_nil : interleave [] [] []
  | il_left x l1 l2 l : interleave l1 l2 l -> interleave (x :: l1) l2 (x :: l)
  | il_right x l1 l2 l : interleave l1 l2 l -> interleave l1 (x :: l2) (x :: l).

(** ** [generate_nouns.py]: the WordNet oracle *)

(** What the code reads from an NLTK synset: its name, [definition()],
    the names along each path of [hypernym_paths()] and the names of
    [instance_hypernyms()]. *)
Record synset : Type := mk_synset {
  syn_name : string;
  definition : string;
  hypernym_paths : list (list string);
  instance_hypernyms : list string
}.

(** [wn.synsets(word, pos=wn.NOUN)] as a read-only oracle. *)
Definition wordnet : Type := string -> list synset.

Definition abstract_roots : list string :=
  [ "abstraction.n.06"; "psychological_feature.n.01"; "attribute.n.02";
    "state.n.04"; "event.n.01"; "act.n.02"; "group.n.01"; "measure.n.02";
    "time_period.n.01"; "relation.n.01"; "communication.n.02"; "content.n.05";
    "possession.n.02"; "social_group.n.01"; "body_part.n.01";
    "internal_organ.n.01"; "person.n.01"; "human.n.01"; "worker.n.01";
    "adult.n.01"; "juvenile.n.01"; "national.n.01"; "native.n.03";
    "resident.n.01"; "inhabitant.n.01"; "professional.n.01";
    "skilled_worker.n.01"; "organization.n.01"; "establishment.n.01" ].

Definition concrete_roots : list string :=
  [ "physical_entity.n.01"; "object.n.01"; "artifact.n.01";
    "natural_object.n.01"; "living_thing.n.01"; "organism.n.01";
    "whole.n.02" ].

Definition abstract_keywords : list string :=
  [ "concept of"; "idea of"; "theory of"; "principle of"; "state of being";
    "feeling of"; "emotion of"; "the act of"; "the action of";
    "the process of"; "the activity of"; "the event of" ].

Definition technical_keywords : list string :=
  [ "drug used"; "medicine"; "pharmaceutical"; "medication";
    "chemical compound"; "enzyme"; "hormone"; "protein"; "antibiotic";
    "trademark"; "trade name"; "brand name"; "physics"; "chemistry";
    "particle"; "subatomic"; "molecular"; "atom"; "ion"; "transmits";
    "duplicator"; "device for"; "apparatus"; "instrument for measuring";
    "amphetamine"; "anesthetic"; "crystalline"; "sedative"; "stimulant";
    "analgesic"; "ester"; "alkaloid"; "steroid"; "vitamin"; "fossil";
    "extinct" ].

Definition formal_suffixes : list string :=
  [ "tion"; "sion"; "ism"; "ity"; "ness"; "ment"; "ence"; "ance" ].

(** [hypernyms = set(); for path in ...: hypernyms.update(names)] *)
Definition hypernyms_of (s : synset) : list string :=
  concat (hypernym_paths s).

(** The [for synset in synsets] loop of [is_concrete_noun]; every
    [continue] moves to the next sense, [return True] ends the loop. *)
Fixpoint concrete_loop (word : string) (synsets : list synset) : bool :=
  match synsets with
  | [] => false
  | synset :: rest =>
      let hypernyms := hypernyms_of synset in
      if negb (intersects hypernyms concrete_roots) then concrete_loop word rest
      else if intersects hypernyms abstract_roots then concrete_loop word rest
      else
        let definition := lower (definition synset) in
        if existsb (fun keyword => contains keyword definition) abstract_keywords
        then concrete_loop word rest
        else if existsb (fun keyword => contains keyword definition)
                        technical_keywords
        then concrete_loop word rest
        else if Nat.ltb 8 (String.length word)
                && existsb (fun suffix => endswith word suffix) formal_suffixes
        then
          if contains "reproduction" definition
             || contains "duplication" definition
             || contains "replication" definition
          then concrete_loop word rest
          else true
        else true
  end.

Definition is_concrete_noun (wn : wordnet) (word : string) : bool :=
  match wn word with
  | [] => false
  | synsets => concrete_loop word synsets
  end.

(** A named-instance sense: one whose [instance_hypernyms()]
    is a non-empty (truthy) list. *)
Definition is_named_instance (s : synset) : bool :=
  match instance_hypernyms s with [] => false | _ => true end.

(** [is_valid_word]; [None] is the [IndexError] that [word[0]] raises on
    the empty string. *)
Definition is_valid_word (wn : wordnet) (word : string) : option bool :=
  if negb (isalpha word) then Some false
  else
    match String.get 0 word with
    | None => None
    | Some c =>
        if is_upper_char c then Some false
        else
          match wn word with
          | [] => Some true
          | synsets =>
              if forallb is_named_instance synsets
              then Some false
              else Some true
          end
    end.

(** ** Spec-side reading of the Taxonomy-Based Classifier (section 4.2)

    A sense qualifies when its ancestor set meets the concrete roots,
    misses the abstract roots, and its definition passes the marker,
    technical and suffix+reproduction exclusions (steps a-d). *)
Definition spec_sense_concrete (word : string) (s : synset) : bool :=
  let anc := hypernyms_of s in
  let d := lower (definition s) in
  intersects anc concrete_roots
  && negb (intersects anc abstract_roots)
  && negb (existsb (fun k => contains k d) abstract_keywords)
  && negb (existsb (fun k => contains k d) technical_keywords)
  && negb (Nat.ltb 8 (String.length word)
           && existsb (fun suffix => endswith word suffix) formal_suffixes
           && (contains "reproduction" d || contains "duplication" d
               || contains "replication" d)).

(** ** Sample taxonomies *)

(** No word has a noun sense. *)
Definition wn_empty : wordnet := fun _ => [].

Definition bat_club : synset :=
  mk_synset "bat.n.05" "a club used for hitting a ball in various games"
    [ [ "entity.n.01"; "physical_entity.n.01"; "object.n.01"; "whole.n.02";
        "artifact.n.01"; "instrumentality.n.03"; "implement.n.01";
        "club.n.03"; "bat.n.05" ] ]
    [].

Definition bat_turn : synset :=
  mk_synset "bat.n.02" "(baseball) a turn trying to get a hit"
    [ [ "entity.n.01"; "abstraction.n.06"; "psychological_feature.n.01";
        "event.n.01"; "act.n.02"; "turn.n.03"; "bat.n.02" ] ]
    [].

Definition chair_seat : synset :=
  mk_synset "chair.n.01" "a seat for one person, with a support for the back"
    [ [ "entity.n.01"; "physical_entity.n.01"; "object.n.01"; "whole.n.02";
        "artifact.n.01"; "furniture.n.01"; "seat.n.03"; "chair.n.01" ] ]
    [].

Definition paris_city : synset :=
  mk_synset "paris.n.01" "the capital and largest city of France"
    [ [ "entity.n.01"; "physical_entity.n.01"; "object.n.01";
        "location.n.01"; "city.n.01"; "paris.n.01" ] ]
    [ "national_capital.n.01" ].

(** A small WordNet: "bat" has an abstract sense before a physical one. *)
Definition wn_demo : wordnet := fun w =>
  if w =? "bat" then [bat_turn; bat_club]
  else if w =? "chair" then [chair_seat]
  else if w =? "paris" then [paris_city]
  else [].

(** ** [generate_nouns.py]: [get_concrete_nouns] *)

(** A Python [set] of strings later passed to [sorted()] is represented
    by the sorted list of its distinct elements ([sorted] compares code
    points, as [String.compare] does on ASCII); [set.add] inserts. *)
Fixpoint set_add (x : string) (s : list string) : list string :=
  match s with
  | [] => [x]
  | y :: s' =>
      match String.compare x y with
      | Lt => x :: s
      | Eq => s
      | Gt => y :: set_add x s'
      end
  end.

(** [s.replace(old, new)] for one-character [old] and [new] *)
Fixpoint replace_char (old new : ascii) (s : string) : string :=
  match s with
  | EmptyString => EmptyString
  | String c s' => String (if Ascii.eqb c old then new else c) (replace_char old new s')
  end.

(** The two nested loops over [wn.all_synsets(pos=wn.NOUN)] and
    [synset.lemmas()], run over the lemma names in that order; [None] is an
    exception escaping [is_valid_word]. *)
Fixpoint collect_nouns (wn : wordnet) (min_length max_length : nat)
    (names : list string) (all_nouns : list string) : option (list string) :=
  match names with
  | [] => Some all_nouns
  | name :: rest =>
      let word := replace_char "_" " " name in
      if negb (contains " " word) && negb (contains "-" word) then
        let word := lower word in
        if (min_length <=? String.length word)%nat
           && (String.length word <=? max_length)%nat then
          match is_valid_word wn word with
          | None => None
          | Some true =>
              collect_nouns wn min_length max_length rest (set_add word all_nouns)
          | Some false => collect_nouns wn min_length max_length rest all_nouns
          end
        else collect_nouns wn min_length max_length rest all_nouns
      else collect_nouns wn min_length max_length rest all_nouns
  end.

(** [for word in sorted(all_nouns): if is_concrete_noun(word): add] *)
Fixpoint concrete_filter (wn : wordnet) (words concrete_nouns : list string)
    : list string :=
  match words with
  | [] => concrete_nouns
  | word :: rest =>
      concrete_filter wn rest
        (if is_concrete_noun wn word then set_add word concrete_nouns
         else concrete_nouns)
  end.

(** [get_concrete_nouns(min_length, max_length)]; [noun_synsets] lists the
    lemma names of each noun synset of WordNet, in [all_synsets] order. *)
Definition get_concrete_nouns (wn : wordnet) (noun_synsets : list (list string))
    (min_length max_length : nat) : option (list string) :=
  match collect_nouns wn min_length max_length (concat noun_synsets) [] with
  | None => None
  | Some all_nouns => Some (concrete_filter wn all_nouns [])
  end.

(** The test the inner loop of [get_concrete_nouns] applies to one
    lemma name [name], [w] being the word it adds to [all_nouns]. *)
Definition lemma_word_accepted (wn : wordnet) (min_length max_length : nat)
    (name w : string) : Prop :=
  let word := replace_char "_" " " name in
  contains " " word = false /\ contains "-" word = false /\ w = lower word
  /\ (min_length <= String.length w <= max_length)%nat
  /\ is_valid_word wn w = Some true.

(** Lemma names of a small WordNet matching [wn_demo]. *)
Definition demo_noun_synsets : list (list string) :=
  [ ["bat"; "cricket_bat"]; ["bat"]; ["chair"; "Chair"]; ["Paris"];
    ["x-ray"]; ["7up"]; ["zzzzzzzzzzzz"] ].

(** * Properties *)

(** ** Helper lemmas on the heuristic classifier *)

Lemma suffix_loop_exception (wl : string) (sufs : list string) :
  mem wl SUFFIX_EXCEPTIONS = true -> suffix_loop wl sufs = false.
Proof.
  intros Hex. induction sufs as [|suf rest IH]; cbn [suffix_loop]; [reflexivity|].
  rewrite Hex. destruct (endswith wl suf); exact IH.
Qed.

Lemma suffix_loop_hit (wl suf : string) (sufs : list string) :
  In suf sufs -> endswith wl suf = true ->
  mem wl SUFFIX_EXCEPTIONS = false -> suffix_loop wl sufs = true.
Proof.
  intros Hin Hend Hex. induction sufs as [|s rest IH]; [destruct Hin|].
  cbn [suffix_loop]. destruct Hin as [<-|Hin].
  - rewrite Hend, Hex. reflexivity.
  - destruct (endswith wl s); [rewrite Hex; reflexivity| exact (IH Hin)].
Qed.

Lemma lower_endswith (w suf : string) :
  lower suf = suf -> endswith w suf = true -> endswith (lower w) suf = true.
Proof.
  intros Hsuf. induction w as [|c w IH]; cbn [lower endswith].
  - destruct suf; simpl in *; congruence.
  - destruct (String.eqb_spec (String c w) suf) as [Heq|Hne]; cbn [orb].
    + intros _. subst suf. cbn [lower] in Hsuf. rewrite Hsuf.
      rewrite String.eqb_refl. reflexivity.
    + intros H. rewrite (IH H). apply orb_true_r.
Qed.

Lemma abstract_suffixes_lower (suf : string) :
  In suf ABSTRACT_SUFFIXES -> lower suf = suf.
Proof.
  simpl. intros H. repeat (destruct H as [<-|H]; [reflexivity|]). destruct H.
Qed.

Lemma lower_length (w : string) : String.length (lower w) = String.length w.
Proof. induction w; simpl; congruence. Qed.

Lemma is_abstract_noun_unfold (w : string) :
  is_abstract_noun w =
  mem (lower w) ABSTRACT_WORDS || mem (lower w) ABSTRACT_KEYWORDS
  || (Nat.ltb 7 (String.length w) && suffix_loop (lower w) ABSTRACT_SUFFIXES).
Proof.
  unfold is_abstract_noun.
  destruct (mem (lower w) ABSTRACT_WORDS), (mem (lower w) ABSTRACT_KEYWORDS);
    reflexivity.
Qed.

(** ** C5: order of the heuristic checks *)

(** C5. [should_filter] runs the profanity test, then the direct
    abstract-word set, the abstract-keyword set and the suffix rule, the
    first that fires deciding.  Every word of the profanity set fires
    [is_profane]; then [should_filter] holds without any abstract set being
    consulted.  A word that fires none of the checks is kept. *)
Theorem should_filter_check_order :
  (forall w, should_filter w =
     if is_profane w then true
     else if mem (lower w) ABSTRACT_WORDS then true
     else if mem (lower w) ABSTRACT_KEYWORDS then true
     else if Nat.ltb 7 (String.length w)
          then suffix_loop (lower w) ABSTRACT_SUFFIXES
          else false)
  /\ (forall w, In w PROFANITY -> is_profane w = true /\ should_filter w = true)
  /\ (forall w, is_profane w = false ->
        mem (lower w) ABSTRACT_WORDS = false ->
        mem (lower w) ABSTRACT_KEYWORDS = false ->
        (Nat.ltb 7 (String.length w) = false
         \/ suffix_loop (lower w) ABSTRACT_SUFFIXES = false) ->
        should_filter w = false).
Proof.
  split; [|split].
  - intros w. unfold should_filter, is_abstract_noun.
    destruct (is_profane w); [reflexivity|].
    destruct (mem (lower w) ABSTRACT_WORDS); [reflexivity|].
    destruct (mem (lower w) ABSTRACT_KEYWORDS); [reflexivity|].
    destruct (Nat.ltb 7 (String.length w));
      [destruct (suffix_loop (lower w) ABSTRACT_SUFFIXES)|]; reflexivity.
  - intros w H. simpl in H.
    repeat (destruct H as [<-|H]; [split; vm_compute; reflexivity|]).
    destruct H.
  - intros w Hp Hw Hk Hs. unfold should_filter, is_abstract_noun.
    rewrite Hp, Hw, Hk.
    destruct Hs as [Hs|Hs]; rewrite Hs; [reflexivity|].
    destruct (Nat.ltb 7 (String.length w)); reflexivity.
Qed.

Lemma should_filter_check_order_witness :
  (is_profane "fuck" = true /\ should_filter "fuck" = true)
  /\ should_filter "elephant" = false.
Proof.
  destruct should_filter_check_order as [_ [Hprof Hkeep]]. split.
  - apply Hprof. simpl. auto 20.
  - apply Hkeep; vm_compute; auto.
Defined.

(** ** C4: the suffix rule and its length gate *)

(** C4. For a word of at most 7 characters the suffix rule never
    decides: [is_abstract_noun] is the two set tests alone.  A word longer
    than 7 characters that ends with a listed suffix and whose lowercase
    form is not whitelisted is abstract; so is "application". *)
Theorem suffix_rule_length_gate :
  (forall w, String.length w <= 7 ->
     is_abstract_noun w =
     mem (lower w) ABSTRACT_WORDS || mem (lower w) ABSTRACT_KEYWORDS)
  /\ (forall w suf, 7 < String.length w -> In suf ABSTRACT_SUFFIXES ->
        endswith w suf = true -> mem (lower w) SUFFIX_EXCEPTIONS = false ->
        is_abstract_noun w = true)
  /\ is_abstract_noun "application" = true.
Proof.
  split; [|split].
  - intros w Hlen. rewrite is_abstract_noun_unfold.
    replace (Nat.ltb 7 (String.length w)) with false
      by (symmetry; apply Nat.ltb_ge; exact Hlen).
    rewrite andb_false_l, orb_false_r. reflexivity.
  - intros w suf Hlen Hin Hend Hex. rewrite is_abstract_noun_unfold.
    replace (Nat.ltb 7 (String.length w)) with true
      by (symmetry; apply Nat.ltb_lt; exact Hlen).
    rewrite (suffix_loop_hit (lower w) suf ABSTRACT_SUFFIXES Hin); [| |exact Hex].
    + rewrite !orb_true_r. reflexivity.
    + apply lower_endswith; [apply abstract_suffixes_lower; exact Hin|exact Hend].
  - vm_compute. reflexivity.
Qed.

Lemma suffix_rule_length_gate_witness :
  is_abstract_noun "sky" = false /\ is_abstract_noun "paranoia" = false
  /\ is_abstract_noun "elegance" = true.
Proof.
  destruct suffix_rule_length_gate as [Hshort [Hlong _]]. split; [|split].
  - rewrite (Hshort "sky"); [vm_compute; reflexivity|simpl; lia].
  - vm_compute. reflexivity.
  - apply (Hlong "elegance" "ance"); [simpl; lia|simpl; auto 20|
                                      vm_compute; reflexivity|vm_compute; reflexivity].
Defined.

(** ** C1: the suffix-exception whitelist *)

(** C1 (counterexample). Not every whitelisted word is kept: "burden"
    is in [ABSTRACT_WORDS] and "portion" in [ABSTRACT_KEYWORDS], and both
    checks run before the suffix rule. *)
Lemma whitelist_not_all_kept :
  ~ (forall w, In w SUFFIX_EXCEPTIONS -> should_filter w = false).
Proof.
  intros H.
  assert (Hb : should_filter "burden" = false) by (apply H; simpl; auto 40).
  vm_compute in Hb. discriminate.
Qed.

(** C1 (amended). A whitelisted word is never made abstract by the
    suffix rule: its verdict from [is_abstract_noun] is the two curated set
    tests alone.  Every whitelisted word but "burden" and "portion" is
    kept by [should_filter]. *)
Theorem whitelist_overrides_suffix_rule :
  (forall w, mem (lower w) SUFFIX_EXCEPTIONS = true ->
     is_abstract_noun w =
     mem (lower w) ABSTRACT_WORDS || mem (lower w) ABSTRACT_KEYWORDS)
  /\ (forall w, In w SUFFIX_EXCEPTIONS -> w <> "burden" -> w <> "portion" ->
        should_filter w = false).
Proof.
  split.
  - intros w Hex. rewrite is_abstract_noun_unfold, suffix_loop_exception by exact Hex.
    rewrite andb_false_r, orb_false_r. reflexivity.
  - intros w H Hb Hp. simpl in H.
    repeat (destruct H as [<-|H];
            [first [exfalso; apply Hb; reflexivity
                   | exfalso; apply Hp; reflexivity
                   | vm_compute; reflexivity]|]).
    destruct H.
Qed.

Lemma whitelist_overrides_suffix_rule_witness :
  is_abstract_noun "Television" = false /\ should_filter "television" = false.
Proof.
  destruct whitelist_overrides_suffix_rule as [Hov Hkeep]. split.
  - rewrite Hov; vm_compute; reflexivity.
  - apply Hkeep; [simpl; auto 20|discriminate|discriminate].
Defined.

(** ** C7: the kept/removed partition of [main] *)

Lemma partition_loop_filter (f r ws : list string) :
  partition_loop f r ws =
  (f ++ filter (fun w => negb (should_filter w)) ws, r ++ filter should_filter ws).
Proof.
  revert f r. induction ws as [|w ws IH]; intros f r; simpl.
  - rewrite !app_nil_r. reflexivity.
  - destruct (should_filter w); simpl; rewrite IH, <- app_assoc; reflexivity.
Qed.

Lemma interleave_filter {A : Type} (p : A -> bool) (l : list A) :
  interleave (filter (fun x => negb (p x)) l) (filter p l) l.
Proof.
  induction l as [|x l IH]; simpl; [constructor|].
  destruct (p x); simpl; constructor; exact IH.
Qed.

Lemma interleave_permutation {A : Type} (l1 l2 l : list A) :
  interleave l1 l2 l -> Permutation l (l1 ++ l2).
Proof.
  induction 1 as [|x l1 l2 l _ IH|x l1 l2 l _ IH]; simpl.
  - constructor.
  - constructor. exact IH.
  - apply Permutation_cons_app. exact IH.
Qed.

(** C7. The loop of [main] sends every word to exactly one of
    [filtered_words] (kept) and [removed_words]: the input is an
    interleaving of the two, position by position and in order, hence a
    permutation of their concatenation; kept holds the words
    [should_filter] rejects, removed those it accepts. *)
Theorem main_partition_interleaves (words : list string) :
  let '(kept, removed) := main_partition words in
  interleave kept removed words
  /\ Permutation words (kept ++ removed)
  /\ kept = filter (fun w => negb (should_filter w)) words
  /\ removed = filter should_filter words.
Proof.
  unfold main_partition. rewrite partition_loop_filter. simpl.
  split; [|split; [|split]]; try reflexivity.
  - apply interleave_filter.
  - apply interleave_permutation, interleave_filter.
Qed.

(** ** C2: any-sense disjunction of [is_concrete_noun] *)

Lemma concrete_loop_existsb (w : string) (ss : list synset) :
  concrete_loop w ss = existsb (spec_sense_concrete w) ss.
Proof.
  induction ss as [|s ss IH]; [reflexivity|].
  cbn [concrete_loop existsb]. rewrite IH. unfold spec_sense_concrete.
  cbv zeta.
  destruct (intersects (hypernyms_of s) concrete_roots); cbn [negb andb orb];
    [|reflexivity].
  destruct (intersects (hypernyms_of s) abstract_roots); cbn [negb andb orb];
    [reflexivity|].
  destruct (existsb (fun k => contains k (lower (definition s))) abstract_keywords);
    cbn [negb andb orb]; [reflexivity|].
  destruct (existsb (fun k => contains k (lower (definition s))) technical_keywords);
    cbn [negb andb orb]; [reflexivity|].
  destruct (Nat.ltb 8 (String.length w)
            && existsb (fun suffix => endswith w suffix) formal_suffixes);
    cbn [negb andb orb]; [|reflexivity].
  destruct (contains "reproduction" (lower (definition s))
            || contains "duplication" (lower (definition s))
            || contains "replication" (lower (definition s)));
    reflexivity.
Qed.

Lemma concrete_loop_stops (w : string) (pre : list synset) (s : synset)
    (post post' : list synset) :
  spec_sense_concrete w s = true ->
  concrete_loop w (pre ++ s :: post) = concrete_loop w (pre ++ s :: post').
Proof.
  intros Hs. rewrite !concrete_loop_existsb, !existsb_app. cbn [existsb].
  rewrite Hs, !orb_true_l, !orb_true_r. reflexivity.
Qed.

(** C2. [is_concrete_noun] is the disjunction over the noun senses, in
    the taxonomy's order, of the per-sense test of section 4.2 (concrete
    root met, no abstract root, definition passes the marker, technical
    and suffix+reproduction exclusions); the loop stops at the first
    qualifying sense, and one qualifying sense among others (abstract ones
    included) makes the word concrete. *)
Theorem is_concrete_noun_any_sense (wn : wordnet) (w : string) :
  is_concrete_noun wn w = existsb (spec_sense_concrete w) (wn w)
  /\ (forall pre s post post', wn w = pre ++ s :: post ->
        spec_sense_concrete w s = true ->
        is_concrete_noun wn w = concrete_loop w (pre ++ s :: post'))
  /\ (forall s, In s (wn w) -> spec_sense_concrete w s = true ->
        is_concrete_noun wn w = true).
Proof.
  assert (Hall : is_concrete_noun wn w = existsb (spec_sense_concrete w) (wn w)).
  { unfold is_concrete_noun. rewrite <- concrete_loop_existsb.
    destruct (wn w); reflexivity. }
  split; [exact Hall|split].
  - intros pre s post post' Hwn Hs.
    rewrite <- (concrete_loop_stops w pre s post post' Hs), <- Hwn.
    rewrite Hall, concrete_loop_existsb. reflexivity.
  - intros s Hin Hs. rewrite Hall. apply existsb_exists. exists s. auto.
Qed.

Lemma is_concrete_noun_any_sense_witness :
  is_concrete_noun wn_demo "bat" = true
  /\ is_concrete_noun wn_demo "bat" = concrete_loop "bat" [bat_turn; bat_club].
Proof.
  destruct (is_concrete_noun_any_sense wn_demo "bat") as [_ [Hstop Hin]]. split.
  - apply (Hin bat_club); [simpl; auto|vm_compute; reflexivity].
  - apply (Hstop [bat_turn] bat_club [] []); [reflexivity|vm_compute; reflexivity].
Defined.

(** ** C6: a word without noun senses *)

(** C6. When WordNet has no noun sense for the word, [is_concrete_noun]
    returns [False]. *)
Theorem is_concrete_noun_no_senses (wn : wordnet) (w : string) :
  wn w = [] -> is_concrete_noun wn w = false.
Proof. intros H. unfold is_concrete_noun. rewrite H. reflexivity. Qed.

Lemma is_concrete_noun_no_senses_witness :
  wn_empty "xyzzy" = [] /\ is_concrete_noun wn_empty "xyzzy" = false.
Proof.
  split; [reflexivity|]. apply is_concrete_noun_no_senses. reflexivity.
Defined.

(** ** C3, C8, C10: the Word-Validity Filter *)

(** The first character of [w], when there is one, is not upper case. *)
Definition first_not_upper (w : string) : Prop :=
  forall c rest, w = String c rest -> is_upper_char c = false.

Lemma is_valid_word_never_raises (wn : wordnet) (w : string) :
  exists b, is_valid_word wn w = Some b.
Proof.
  unfold is_valid_word. destruct w as [|c rest]; cbn [negb isalpha String.get].
  - eauto.
  - destruct (all_alpha (String c rest)); cbn [negb]; [|eauto].
    destruct (is_upper_char c); [eauto|].
    destruct (wn (String c rest)) as [|s ss]; [eauto|].
    destruct (forallb is_named_instance (s :: ss)); eauto.
Qed.

Lemma is_valid_word_true_iff (wn : wordnet) (w : string) :
  is_valid_word wn w = Some true <->
  isalpha w = true /\ first_not_upper w
  /\ (wn w = [] \/ forallb is_named_instance (wn w) = false).
Proof.
  unfold is_valid_word, first_not_upper. destruct w as [|c rest].
  - simpl. split; [discriminate|]. intros [H _]. discriminate.
  - cbn [negb String.get].
    destruct (isalpha (String c rest)) eqn:Ha; cbn [negb];
      [|split; [discriminate|intros [H _]; discriminate]].
    destruct (is_upper_char c) eqn:Hu.
    + split; [discriminate|]. intros [_ [H _]].
      rewrite (H c rest eq_refl) in Hu. discriminate.
    + assert (Hfirst : forall c' rest', String c rest = String c' rest' ->
                       is_upper_char c' = false)
        by (intros c' rest' Heq; injection Heq as <- <-; exact Hu).
      destruct (wn (String c rest)) as [|s ss] eqn:Hwn.
      * split; [intros _; auto|reflexivity].
      * destruct (forallb is_named_instance (s :: ss)) eqn:Hf.
        -- split; [discriminate|]. intros [_ [_ [H|H]]]; discriminate.
        -- split; [intros _; auto|reflexivity].
Qed.

Lemma lower_fixed_not_upper (c : ascii) :
  lower_char c = c -> is_upper_char c = false.
Proof.
  unfold lower_char, is_upper_char.
  destruct ((65 <=? nat_of_ascii c) && (nat_of_ascii c <=? 90))%nat eqn:E;
    [|reflexivity].
  intros H. apply andb_true_iff in E as [_ E]. apply Nat.leb_le in E.
  apply (f_equal nat_of_ascii) in H.
  rewrite nat_ascii_embedding in H by lia. lia.
Qed.

(** C3 (counterexample). With no noun sense for "xyzzy", every sense of
    it is (vacuously) a named-instance sense, yet [is_valid_word]
    accepts it. *)
Lemma is_valid_word_iff_counterexample :
  ~ (forall wn w, is_valid_word wn w = Some true <->
       isalpha w = true /\ first_not_upper w
       /\ forallb is_named_instance (wn w) = false).
Proof.
  intros H. destruct (proj1 (H wn_empty "xyzzy") eq_refl) as [_ [_ Hf]].
  discriminate.
Qed.

(** C3 (amended). [is_valid_word] accepts a token iff it is non-empty and
    all alphabetic, its first character is not upper case, and WordNet has
    no noun sense for it or not all its senses are named-instance senses;
    it rejects "Paris" and "7up", and accepts "chair" when not all of
    chair's senses are named-instance senses.  It never raises. *)
Theorem is_valid_word_spec (wn : wordnet) :
  (forall w, is_valid_word wn w = Some true <->
     isalpha w = true /\ first_not_upper w
     /\ (wn w = [] \/ forallb is_named_instance (wn w) = false))
  /\ (forall w, exists b, is_valid_word wn w = Some b)
  /\ is_valid_word wn "Paris" = Some false
  /\ is_valid_word wn "7up" = Some false
  /\ (forallb is_named_instance (wn "chair") = false ->
      is_valid_word wn "chair" = Some true).
Proof.
  split; [apply is_valid_word_true_iff|split; [apply is_valid_word_never_raises|]].
  split; [reflexivity|split; [reflexivity|]].
  intros Hchair. apply is_valid_word_true_iff.
  split; [reflexivity|split; [|auto]].
  intros c rest Heq. injection Heq as <- _. reflexivity.
Qed.

Lemma is_valid_word_spec_witness :
  is_valid_word wn_demo "chair" = Some true
  /\ is_valid_word wn_demo "paris" = Some false.
Proof.
  destruct (is_valid_word_spec wn_demo) as [_ [_ [_ [_ Hchair]]]].
  split; [apply Hchair; reflexivity|reflexivity].
Defined.

(** C10. A non-empty alphabetic token whose first character is not upper
    case and which has no noun sense in WordNet is accepted: the
    named-instance rejection only applies to words with senses. *)
Theorem is_valid_word_unknown_token (wn : wordnet) (w : string) :
  isalpha w = true -> first_not_upper w -> wn w = [] ->
  is_valid_word wn w = Some true.
Proof.
  intros Ha Hu Hwn. apply is_valid_word_true_iff. auto.
Qed.

Lemma is_valid_word_unknown_token_witness :
  is_valid_word wn_empty "xyzzy" = Some true.
Proof.
  apply is_valid_word_unknown_token; [reflexivity| |reflexivity].
  intros c rest Heq. injection Heq as <- _. reflexivity.
Defined.

(** C8 (counterexample). Missing information does not always give the
    exclude verdict: the lowercase alphabetic token "xyzzy", which has no
    noun sense, is accepted by [is_valid_word]. *)
Lemma missing_senses_not_excluded :
  ~ (forall wn w, isalpha w = true -> lower w = w -> wn w = [] ->
       is_concrete_noun wn w = false /\ is_valid_word wn w = Some false).
Proof.
  intros H. destruct (H wn_empty "xyzzy" eq_refl eq_refl eq_refl) as [_ Hv].
  vm_compute in Hv. discriminate.
Qed.

(** C8 (amended). No classifier raises: [is_valid_word] always returns a
    verdict (its [word[0]] is only reached once [isalpha] has rejected the
    empty string) and the other classifiers are total.  A word with no
    noun sense gets the exclude verdict from [is_concrete_noun], while
    [is_valid_word] accepts such a lowercase alphabetic token. *)
Theorem classifiers_total (wn : wordnet) :
  (forall w, exists b, is_valid_word wn w = Some b)
  /\ (forall w, wn w = [] -> is_concrete_noun wn w = false)
  /\ (forall w, isalpha w = true -> lower w = w -> wn w = [] ->
        is_valid_word wn w = Some true).
Proof.
  split; [apply is_valid_word_never_raises|split].
  - intros w H. unfold is_concrete_noun. rewrite H. reflexivity.
  - intros w Ha Hl Hwn. apply is_valid_word_true_iff.
    split; [exact Ha|split; [|auto]].
    intros c rest ->. cbn [lower] in Hl. injection Hl as Hc _.
    apply lower_fixed_not_upper. exact Hc.
Qed.

Lemma classifiers_total_witness :
  is_concrete_noun wn_empty "xyzzy" = false
  /\ is_valid_word wn_empty "xyzzy" = Some true.
Proof.
  destruct (classifiers_total wn_empty) as [_ [Hc Hv]].
  split; [apply Hc; reflexivity|apply Hv; reflexivity].
Defined.

(** ** C9: determinism *)

(** C9. The verdicts are functions of the word and of the snapshot:
    [is_concrete_noun] and [is_valid_word] depend on WordNet only through
    its answer for that word, and [should_filter] (over the fixed curated
    sets) only on the word. *)
Theorem classification_deterministic :
  (forall (wn1 wn2 : wordnet) w, wn1 w = wn2 w ->
     is_concrete_noun wn1 w = is_concrete_noun wn2 w
     /\ is_valid_word wn1 w = is_valid_word wn2 w)
  /\ (forall w1 w2, w1 = w2 -> should_filter w1 = should_filter w2).
Proof.
  split.
  - intros wn1 wn2 w H. unfold is_concrete_noun, is_valid_word. rewrite H.
    split; reflexivity.
  - intros w1 w2 ->. reflexivity.
Qed.

Lemma classification_deterministic_witness :
  is_concrete_noun wn_demo "bat"
  = is_concrete_noun (fun w => if w =? "bat" then [bat_turn; bat_club] else [])
      "bat"
  /\ should_filter "garden" = should_filter "garden".
Proof.
  destruct classification_deterministic as [Hwn Hsf]. split.
  - apply (Hwn wn_demo _ "bat"). reflexivity.
  - apply Hsf. reflexivity.
Defined.

(** ** Helper lemmas for [get_concrete_nouns] *)

Lemma set_add_In (x w : string) (s : list string) :
  In w (set_add x s) <-> w = x \/ In w s.
Proof.
  induction s as [|y s IH]; cbn [set_add]; [simpl; firstorder congruence|].
  destruct (String.compare x y) eqn:E.
  - apply String.compare_eq_iff in E. subst y. simpl. firstorder congruence.
  - simpl. firstorder congruence.
  - simpl. rewrite IH. firstorder congruence.
Qed.

Lemma set_add_HdRel (x y : string) (s : list string) :
  String.compare y x = Lt ->
  HdRel (fun a b => String.compare a b = Lt) y s ->
  HdRel (fun a b => String.compare a b = Lt) y (set_add x s).
Proof.
  intros Hyx Hd. destruct s as [|z s]; cbn [set_add].
  - constructor. exact Hyx.
  - destruct (String.compare x z); [exact Hd|constructor; exact Hyx|].
    inversion Hd; subst. constructor. assumption.
Qed.

Lemma set_add_sorted (x : string) (s : list string) :
  Sorted (fun a b => String.compare a b = Lt) s ->
  Sorted (fun a b => String.compare a b = Lt) (set_add x s).
Proof.
  induction s as [|y s IH]; intros Hs; cbn [set_add].
  - repeat constructor.
  - destruct (String.compare x y) eqn:E.
    + exact Hs.
    + constructor; [exact Hs|constructor; exact E].
    + inversion Hs; subst. constructor; [apply IH; assumption|].
      apply set_add_HdRel; [|assumption].
      rewrite String.compare_antisym, E. reflexivity.
Qed.

Lemma ascii_compare_N (a b : ascii) :
  Ascii.compare a b = N.compare (N_of_ascii a) (N_of_ascii b).
Proof. reflexivity. Qed.

Lemma string_compare_refl (s : string) : String.compare s s = Eq.
Proof.
  induction s as [|c s IH]; [reflexivity|]. cbn [String.compare].
  rewrite ascii_compare_N, N.compare_refl. exact IH.
Qed.

Lemma string_compare_trans (a b c : string) :
  String.compare a b = Lt -> String.compare b c = Lt -> String.compare a c = Lt.
Proof.
  revert b c. induction a as [|x a IH]; intros b c Hab Hbc;
    destruct b as [|y b]; destruct c as [|z c]; cbn [String.compare] in *;
    try discriminate; try reflexivity.
  rewrite ascii_compare_N in *.
  destruct (N.compare (N_of_ascii x) (N_of_ascii y)) eqn:Exy; try discriminate;
  destruct (N.compare (N_of_ascii y) (N_of_ascii z)) eqn:Eyz; try discriminate.
  - apply N.compare_eq_iff in Exy, Eyz. rewrite Exy, Eyz, N.compare_refl.
    exact (IH b c Hab Hbc).
  - apply N.compare_eq_iff in Exy. rewrite Exy, Eyz. reflexivity.
  - apply N.compare_eq_iff in Eyz. rewrite <- Eyz, Exy. reflexivity.
  - assert (Exz : N.compare (N_of_ascii x) (N_of_ascii z) = Lt).
    { exact (N.lt_trans _ _ _ Exy Eyz). }
    rewrite Exz. reflexivity.
Qed.

Lemma strict_sorted_NoDup (s : list string) :
  Sorted (fun a b => String.compare a b = Lt) s -> NoDup s.
Proof.
  intros Hs. apply Sorted_StronglySorted in Hs;
    [|intros a b c; apply string_compare_trans].
  induction Hs as [|x s _ IH Hall]; constructor; [|exact IH].
  intros Hin. rewrite Forall_forall in Hall. specialize (Hall x Hin).
  rewrite string_compare_refl in Hall. discriminate.
Qed.

Lemma lower_char_idem (c : ascii) : lower_char (lower_char c) = lower_char c.
Proof.
  destruct c as [b0 b1 b2 b3 b4 b5 b6 b7].
  destruct b0, b1, b2, b3, b4, b5, b6, b7; reflexivity.
Qed.

Lemma lower_idem (w : string) : lower (lower w) = lower w.
Proof. induction w as [|c w IH]; cbn [lower]; [reflexivity|]. now rewrite lower_char_idem, IH. Qed.

Lemma is_valid_word_isalpha (wn : wordnet) (w : string) :
  is_valid_word wn w = Some true -> isalpha w = true.
Proof. intros H. apply is_valid_word_true_iff in H. tauto. Qed.

Lemma collect_nouns_spec (wn : wordnet) (mn mx : nat) (names acc : list string) :
  exists out, collect_nouns wn mn mx names acc = Some out
  /\ (forall w, In w out <->
        In w acc \/ exists name, In name names /\ lemma_word_accepted wn mn mx name w)
  /\ (Sorted (fun a b => String.compare a b = Lt) acc ->
      Sorted (fun a b => String.compare a b = Lt) out).
Proof.
  revert acc. induction names as [|name names IH]; intros acc.
  - exists acc. split; [reflexivity|split; [|tauto]].
    intros w. split; [tauto|]. intros [H|[n [[] _]]]. exact H.
  - cbn [collect_nouns]. unfold lemma_word_accepted at 1.
    set (word := replace_char "_" " " name).
    assert (Hrej : forall acc', (forall w, ~ lemma_word_accepted wn mn mx name w) ->
      exists out, collect_nouns wn mn mx names acc' = Some out
      /\ (forall w, In w out <-> In w acc' \/ exists n, In n (name :: names)
                                  /\ lemma_word_accepted wn mn mx n w)
      /\ (Sorted (fun a b => String.compare a b = Lt) acc' ->
          Sorted (fun a b => String.compare a b = Lt) out)).
    { intros acc' Hno. destruct (IH acc') as [out [Hc [Hin Hs]]].
      exists out. split; [exact Hc|split; [|exact Hs]].
      intros w. rewrite Hin. split.
      - intros [H|[n [Hn Hok]]]; [left; exact H|right; exists n; simpl; auto].
      - intros [H|[n [[<-|Hn] Hok]]]; [left; exact H|exfalso; exact (Hno w Hok)|].
        right. exists n. auto. }
    destruct (contains " " word) eqn:Hsp;
      [apply Hrej; intros w [H _]; fold word in H; congruence|].
    destruct (contains "-" word) eqn:Hhy;
      [apply Hrej; intros w [_ [H _]]; fold word in H; congruence|].
    cbn [negb andb].
    destruct ((mn <=? String.length (lower word))%nat
              && (String.length (lower word) <=? mx)%nat) eqn:Hlen.
    2:{ apply Hrej. intros w [_ [_ [Hw [[H1 H2] _]]]]. fold word in Hw. subst w.
        apply Nat.leb_le in H1, H2. rewrite H1, H2 in Hlen. discriminate. }
    destruct (is_valid_word wn (lower word)) as [[|]|] eqn:Hv.
    + destruct (IH (set_add (lower word) acc)) as [out [Hc [Hin Hs]]].
      exists out. split; [exact Hc|split].
      * intros w. rewrite Hin, set_add_In. split.
        -- intros [[->|H]|[n [Hn Hok]]].
           ++ right. exists name. split; [left; reflexivity|].
              apply andb_true_iff in Hlen as [H1 H2].
              apply Nat.leb_le in H1, H2. unfold lemma_word_accepted. fold word.
              auto 6.
           ++ left; exact H.
           ++ right. exists n. split; [right; exact Hn|exact Hok].
        -- intros [H|[n [[<-|Hn] Hok]]].
           ++ left; right; exact H.
           ++ left; left. destruct Hok as [_ [_ [Hw _]]]. exact Hw.
           ++ right. exists n. auto.
      * intros Hacc. apply Hs, set_add_sorted, Hacc.
    + apply Hrej. intros w [_ [_ [Hw [_ H]]]]. fold word in Hw. subst w. congruence.
    + destruct (is_valid_word_never_raises wn (lower word)) as [b Hb]. congruence.
Qed.

Lemma concrete_filter_spec (wn : wordnet) (ws acc : list string) :
  (forall w, In w (concrete_filter wn ws acc) <->
     In w acc \/ (In w ws /\ is_concrete_noun wn w = true))
  /\ (Sorted (fun a b => String.compare a b = Lt) acc ->
      Sorted (fun a b => String.compare a b = Lt) (concrete_filter wn ws acc)).
Proof.
  revert acc. induction ws as [|x ws IH]; intros acc; cbn [concrete_filter].
  - split; [|tauto]. intros w. simpl. tauto.
  - destruct (IH (if is_concrete_noun wn x then set_add x acc else acc)) as [Hin Hs].
    split.
    + intros w. rewrite Hin.
      destruct (is_concrete_noun wn x) eqn:Hx; [rewrite set_add_In|]; simpl; split.
      * intros [[->|H]|[H1 H2]]; [right; auto|left; exact H|right; auto].
      * intros [H|[[<-|H1] H2]]; [left; right; exact H|left; left; reflexivity|
                                 right; auto].
      * intros [H|[H1 H2]]; [left; exact H|right; auto].
      * intros [H|[[<-|H1] H2]]; [left; exact H|congruence|right; auto].
    + intros Hacc. apply Hs. destruct (is_concrete_noun wn x);
        [apply set_add_sorted|]; exact Hacc.
Qed.

Lemma get_concrete_nouns_spec (wn : wordnet) (syns : list (list string))
    (mn mx : nat) :
  exists out, get_concrete_nouns wn syns mn mx = Some out
  /\ (forall w, In w out <->
        (exists name, In name (concat syns) /\ lemma_word_accepted wn mn mx name w)
        /\ is_concrete_noun wn w = true)
  /\ Sorted (fun a b => String.compare a b = Lt) out.
Proof.
  destruct (collect_nouns_spec wn mn mx (concat syns) []) as [all [Hc [Hin Hs]]].
  unfold get_concrete_nouns. rewrite Hc.
  destruct (concrete_filter_spec wn all []) as [Hf Hfs].
  exists (concrete_filter wn all []). split; [reflexivity|split].
  - intros w. rewrite Hf, Hin. simpl. tauto.
  - apply Hfs. constructor.
Qed.

Lemma strict_sorted_ext (l1 l2 : list string) :
  Sorted (fun a b => String.compare a b = Lt) l1 ->
  Sorted (fun a b => String.compare a b = Lt) l2 ->
  (forall w, In w l1 <-> In w l2) -> l1 = l2.
Proof.
  intros H1 H2. apply Sorted_StronglySorted in H1, H2;
    try (intros a b c; apply string_compare_trans).
  revert l2 H2. induction H1 as [|x l1 _ IH Hx]; intros l2 H2 Heq.
  - destruct l2 as [|y l2]; [reflexivity|].
    exfalso. apply (proj2 (Heq y)). left. reflexivity.
  - destruct H2 as [|y l2 H2 Hy].
    + exfalso. apply (proj1 (Heq x)). left. reflexivity.
    + rewrite Forall_forall in Hx, Hy.
      assert (Exy : x = y).
      { destruct (proj1 (Heq x) (or_introl eq_refl)) as [->|Hin]; [reflexivity|].
        destruct (proj2 (Heq y) (or_introl eq_refl)) as [<-|Hin']; [reflexivity|].
        pose proof (string_compare_trans _ _ _ (Hy x Hin) (Hx y Hin')) as Hyy.
        rewrite string_compare_refl in Hyy. discriminate. }
      subst y. f_equal. apply IH; [exact H2|].
      intros w. split; intros Hw.
      * destruct (proj1 (Heq w) (or_intror Hw)) as [<-|H]; [|exact H].
        pose proof (Hx x Hw) as Hxx. rewrite string_compare_refl in Hxx. discriminate.
      * destruct (proj2 (Heq w) (or_intror Hw)) as [<-|H]; [|exact H].
        pose proof (Hy x Hw) as Hxx. rewrite string_compare_refl in Hxx. discriminate.
Qed.

Lemma filter_twice {A : Type} (p : A -> bool) (l : list A) :
  filter p (filter p l) = filter p l.
Proof.
  induction l as [|x l IH]; simpl; [reflexivity|].
  destruct (p x) eqn:E; simpl; [rewrite E, IH|]; [reflexivity|exact IH].
Qed.

Lemma filter_neg_filter {A : Type} (p : A -> bool) (l : list A) :
  filter p (filter (fun x => negb (p x)) l) = []
  /\ filter (fun x => negb (p x)) (filter p l) = [].
Proof.
  induction l as [|x l IH]; simpl; [split; reflexivity|].
  destruct (p x) eqn:E; simpl; rewrite ?E; simpl; exact IH.
Qed.

Lemma is_concrete_noun_existsb (wn : wordnet) (w : string) :
  is_concrete_noun wn w = existsb (spec_sense_concrete w) (wn w).
Proof.
  unfold is_concrete_noun. rewrite <- concrete_loop_existsb.
  destruct (wn w); reflexivity.
Qed.

Lemma forallb_permutation {A : Type} (f : A -> bool) (l1 l2 : list A) :
  Permutation l1 l2 -> forallb f l1 = forallb f l2.
Proof.
  induction 1 as [|x l1 l2 _ IH|x y l|l1 l2 l3 _ IH1 _ IH2]; simpl.
  - reflexivity.
  - rewrite IH. reflexivity.
  - destruct (f x), (f y); reflexivity.
  - congruence.
Qed.

(** ** Extra properties *)

(** [get_concrete_nouns] never raises, and a word is in its result iff
    some WordNet lemma name yields it (underscores read as spaces, no
    space or hyphen, lowercased, length within bounds, accepted by
    [is_valid_word]) and [is_concrete_noun] holds for it. *)
Theorem get_concrete_nouns_members (wn : wordnet) (syns : list (list string))
    (mn mx : nat) :
  exists out, get_concrete_nouns wn syns mn mx = Some out
  /\ (forall w, In w out <->
        (exists name, In name (concat syns) /\ lemma_word_accepted wn mn mx name w)
        /\ is_concrete_noun wn w = true).
Proof.
  destruct (get_concrete_nouns_spec wn syns mn mx) as [out [H [Hin _]]].
  exists out. auto.
Qed.

(** The list [get_concrete_nouns] returns is strictly increasing in
    code-point order, hence free of duplicates. *)
Theorem get_concrete_nouns_sorted_unique (wn : wordnet) (syns : list (list string))
    (mn mx : nat) :
  exists out, get_concrete_nouns wn syns mn mx = Some out
  /\ Sorted (fun a b => String.compare a b = Lt) out /\ NoDup out.
Proof.
  destruct (get_concrete_nouns_spec wn syns mn mx) as [out [H [_ Hs]]].
  exists out. split; [exact H|split; [exact Hs|apply strict_sorted_NoDup, Hs]].
Qed.

(** Every word [get_concrete_nouns] returns is lowercase, non-empty and
    alphabetic, with its length between [min_length] and [max_length]. *)
Theorem get_concrete_nouns_wellformed (wn : wordnet) (syns : list (list string))
    (mn mx : nat) :
  exists out, get_concrete_nouns wn syns mn mx = Some out
  /\ (forall w, In w out ->
        lower w = w /\ isalpha w = true
        /\ (mn <= String.length w <= mx)%nat).
Proof.
  destruct (get_concrete_nouns_spec wn syns mn mx) as [out [H [Hin _]]].
  exists out. split; [exact H|].
  intros w Hw. apply Hin in Hw as [[name [_ [_ [_ [Hl [Hb Hv]]]]]] _].
  split; [rewrite Hl; apply lower_idem|split; [|exact Hb]].
  apply (is_valid_word_isalpha wn). exact Hv.
Qed.

(** The result of [get_concrete_nouns] depends on WordNet's lemma names
    only as a set: enumerating them in another order, or with repeats,
    gives the same list. *)
Theorem get_concrete_nouns_order_independent (wn : wordnet)
    (syns1 syns2 : list (list string)) (mn mx : nat) :
  (forall name, In name (concat syns1) <-> In name (concat syns2)) ->
  get_concrete_nouns wn syns1 mn mx = get_concrete_nouns wn syns2 mn mx.
Proof.
  intros Hnames.
  destruct (get_concrete_nouns_spec wn syns1 mn mx) as [o1 [H1 [Hin1 Hs1]]].
  destruct (get_concrete_nouns_spec wn syns2 mn mx) as [o2 [H2 [Hin2 Hs2]]].
  rewrite H1, H2. f_equal. apply strict_sorted_ext; [exact Hs1|exact Hs2|].
  intros w. rewrite Hin1, Hin2. split; intros [[name [Hn Hok]] Hc];
    (split; [exists name; split; [apply Hnames; exact Hn|exact Hok]|exact Hc]).
Qed.

Lemma get_concrete_nouns_order_independent_witness :
  get_concrete_nouns wn_demo demo_noun_synsets 2 10
  = get_concrete_nouns wn_demo (rev demo_noun_synsets ++ [["chair"]]) 2 10.
Proof.
  apply get_concrete_nouns_order_independent.
  intros name. vm_compute. tauto.
Defined.

(** [should_filter] ignores letter case: a word and its lowercase form
    get the same verdict. *)
Theorem should_filter_case_insensitive (w : string) :
  should_filter w = should_filter (lower w).
Proof.
  unfold should_filter, is_profane. rewrite !is_abstract_noun_unfold.
  rewrite lower_idem, lower_length. reflexivity.
Qed.

(** Filtering a concatenation of two word lists gives the concatenation
    of the kept words and of the removed words of each part. *)
Theorem main_partition_app (a b : list string) :
  main_partition (a ++ b) =
  (fst (main_partition a) ++ fst (main_partition b),
   snd (main_partition a) ++ snd (main_partition b)).
Proof.
  unfold main_partition. rewrite !partition_loop_filter, !filter_app. reflexivity.
Qed.

(** Filtering the kept list again removes nothing, and filtering the
    removed list again keeps nothing. *)
Theorem main_partition_refilter (words : list string) :
  main_partition (fst (main_partition words)) = (fst (main_partition words), [])
  /\ main_partition (snd (main_partition words)) = ([], snd (main_partition words)).
Proof.
  unfold main_partition. rewrite !partition_loop_filter. cbn [fst snd app].
  destruct (filter_neg_filter should_filter words) as [H1 H2].
  rewrite H1, H2, filter_twice, (filter_twice should_filter). split; reflexivity.
Qed.

(** Gaining noun senses never makes a concrete word non-concrete. *)
Theorem is_concrete_noun_monotone (wn1 wn2 : wordnet) (w : string) :
  (forall s, In s (wn1 w) -> In s (wn2 w)) ->
  is_concrete_noun wn1 w = true -> is_concrete_noun wn2 w = true.
Proof.
  intros Hincl H. rewrite is_concrete_noun_existsb in *.
  apply existsb_exists in H as [s [Hin Hs]].
  apply existsb_exists. exists s. auto.
Qed.

Lemma is_concrete_noun_monotone_witness :
  is_concrete_noun wn_demo "bat" = true.
Proof.
  apply (is_concrete_noun_monotone (fun _ => [bat_club]) wn_demo "bat").
  - intros s [<-|[]]. simpl. auto.
  - vm_compute. reflexivity.
Defined.

(** The order in which WordNet lists the senses of a word changes neither
    [is_concrete_noun] nor [is_valid_word]. *)
Theorem sense_order_irrelevant (wn1 wn2 : wordnet) (w : string) :
  Permutation (wn1 w) (wn2 w) ->
  is_concrete_noun wn1 w = is_concrete_noun wn2 w
  /\ is_valid_word wn1 w = is_valid_word wn2 w.
Proof.
  intros Hp. split.
  - rewrite !is_concrete_noun_existsb.
    destruct (existsb (spec_sense_concrete w) (wn1 w)) eqn:E1;
    destruct (existsb (spec_sense_concrete w) (wn2 w)) eqn:E2; try reflexivity.
    + apply existsb_exists in E1 as [s [Hin Hs]].
      apply (Permutation_in s Hp) in Hin.
      assert (existsb (spec_sense_concrete w) (wn2 w) = true)
        by (apply existsb_exists; eauto). congruence.
    + apply existsb_exists in E2 as [s [Hin Hs]].
      apply (Permutation_in s (Permutation_sym Hp)) in Hin.
      assert (existsb (spec_sense_concrete w) (wn1 w) = true)
        by (apply existsb_exists; eauto). congruence.
  - unfold is_valid_word. destruct (negb (isalpha w)); [reflexivity|].
    destruct (String.get 0 w) as [c|]; [|reflexivity].
    destruct (is_upper_char c); [reflexivity|].
    pose proof (forallb_permutation is_named_instance _ _ Hp) as Hf.
    destruct (wn1 w) as [|s1 l1], (wn2 w) as [|s2 l2].
    + reflexivity.
    + apply Permutation_nil_cons in Hp. contradiction.
    + apply Permutation_sym, Permutation_nil_cons in Hp. contradiction.
    + rewrite Hf. reflexivity.
Qed.

Lemma sense_order_irrelevant_witness :
  is_concrete_noun wn_demo "bat"
  = is_concrete_noun (fun w => rev (wn_demo w)) "bat".
Proof.
  apply (sense_order_irrelevant wn_demo (fun w => rev (wn_demo w)) "bat").
  cbn. apply perm_swap.
Defined.

(** A word none of whose senses survives the root test and the two
    definition-keyword tests (no concrete root, an abstract root, an
    abstract marker or a technical marker in the lowercased definition) is
    never concrete. *)
Theorem is_concrete_noun_all_senses_excluded (wn : wordnet) (w : string) :
  (forall s, In s (wn w) ->
     intersects (hypernyms_of s) concrete_roots = false
     \/ intersects (hypernyms_of s) abstract_roots = true
     \/ existsb (fun k => contains k (lower (definition s))) abstract_keywords = true
     \/ existsb (fun k => contains k (lower (definition s))) technical_keywords = true) ->
  is_concrete_noun wn w = false.
Proof.
  intros Hall. rewrite is_concrete_noun_existsb.
  destruct (existsb (spec_sense_concrete w) (wn w)) eqn:E; [|reflexivity].
  apply existsb_exists in E as [s [Hin Hs]].
  unfold spec_sense_concrete in Hs. cbv zeta in Hs.
  destruct (Hall s Hin) as [H|[H|[H|H]]]; rewrite H in Hs; cbn [negb] in Hs;
    rewrite ?andb_false_l, ?andb_false_r in Hs; discriminate.
Qed.

Lemma is_concrete_noun_all_senses_excluded_witness :
  is_concrete_noun (fun _ => [bat_turn]) "bat" = false.
Proof.
  apply is_concrete_noun_all_senses_excluded.
  intros s [<-|[]]. right. left. vm_compute. reflexivity.
Defined.
